(** * zustandTutorial: the auth store and the counter store

    A shallow embedding of [src/stores/auth.store.ts],
    [src/stores/counter.store.ts] and the two panels of
    [src/CounterPanel.tsx], and the properties of their actions.

    - A zustand store holds one current state value; [set(partial)]
      replaces it by the shallow merge of [partial] over it, and [set(fn)]
      does the same with [fn(state)].  A partial object is a record of
      optional fields: [None] for a key the object literal does not write,
      [Some v] for a key written with value [v].
    - TypeScript's [T | null] is [option T].
    - A JS string is a [string] holding the UTF-8 bytes of the literal, so
      that [===] on strings is [String.eqb].
    - A JS [number] is an IEEE-754 binary64 value: [spec_float] at
      precision 53 and maximal exponent 1024, with the operations of the
      Standard Library's executable specification of floating point.
    - [login] is an async function: its body up to the [await] runs when
      it is called, the rest when the timer of [fakeLoginApi] fires, on
      whatever the store holds by then.
    - A panel is what its JSX renders from the store: which elements are
      there and which buttons are disabled; an event reaches a handler
      only through an element that is rendered and enabled. *)

From Stdlib Require Import ZArith Lia Bool List String.
From Stdlib Require Import Floats.SpecFloat.
Import ListNotations.

(** ** zustand's merge *)

Module Zustand.

(** One key of [Object.assign({}, state, partial)]. *)
Definition merge_field {A : Type} (p : option A) (old : A) : A :=
  match p with
  | Some v => v
  | None => old
  end.

End Zustand.

(** ** JS values the stores rely on *)

Module JS.

(** [Boolean(v)] for [v : T | null] with [T] an object type: an object is
    truthy, [null] is falsy. *)
Definition Boolean {A : Type} (v : option A) : bool :=
  match v with
  | Some _ => true
  | None => false
  end.

(** What a [catch] clause can receive: an [Error] object with its
    [message], or any other thrown value. *)
Inductive Thrown : Type :=
  | ErrorObject (message : string)
  | OtherValue.

(** How a promise settles. *)
Inductive Settled (A : Type) : Type :=
  | Fulfilled (value : A)
  | Rejected (reason : Thrown).

Arguments Fulfilled {A} value.
Arguments Rejected {A} reason.

End JS.

(** ** JS numbers *)

Module Number.

Local Open Scope Z_scope.

Definition number : Type := spec_float.

Definition prec : Z := 53.
Definition emax : Z := 1024.

(** [x + y], [x - y] and [x > y] on numbers. *)
Definition num_add (x y : number) : number := SFadd prec emax x y.
Definition num_sub (x y : number) : number := SFsub prec emax x y.
Definition num_gt (x y : number) : bool := SFltb y x.

(** The number an integer literal denotes: the integer rounded to the
    nearest binary64 value, ties to even. *)
Definition of_int (z : Z) : number := binary_normalize prec emax z 0 false.

(** The integer a number is, when it is one. *)
Definition to_int (x : number) : option Z :=
  match x with
  | S754_zero _ => Some 0
  | S754_finite s m e =>
      if 0 <=? e then Some (cond_Zopp s (Zpos m * 2 ^ e))
      else if Zpos m mod 2 ^ (- e) =? 0
           then Some (cond_Zopp s (Zpos m / 2 ^ (- e)))
           else None
  | S754_infinity _ => None
  | S754_nan => None
  end.

(** The values a JS number can take: [spec_float] also has finite values
    whose mantissa is not normalised, which no binary64 number is. *)
Definition valid_number (x : number) : Prop := valid_binary prec emax x = true.

(** [canon z w t]: the 53-digit mantissa [w] at exponent [t] is the
    positive integer [z]; both sides are scaled by [2^52] to stay in [Z]. *)
Definition canon (z : Z) (w : positive) (t : Z) : Prop :=
  Zpos (digits2_pos w) = 53 /\ -52 <= t <= 1 /\
  Zpos w * 2 ^ (t + 52) = z * 2 ^ 52.

End Number.

(** ** The auth store, [src/stores/auth.store.ts] *)

Module Auth.

Import Zustand JS.
Local Open Scope string_scope.

(** [type User = { id: string; name: string; email: string }] *)
Record User : Type := mkUser {
  id : string;
  name : string;
  email : string
}.

(** [type LoginInput = { email: string; password: string }] *)
Module LoginInput.
Record t : Type := mk {
  email : string;
  password : string
}.
End LoginInput.

(** [type AuthState] *)
Record AuthState : Type := mkAuthState {
  user : option User;
  isAuthenticated : bool;
  isLoading : bool;
  error : option string
}.

(** [Partial<AuthState>], the object literal handed to [set]. *)
Record AuthPatch : Type := mkAuthPatch {
  p_user : option (option User);
  p_isAuthenticated : option bool;
  p_isLoading : option bool;
  p_error : option (option string)
}.

(** [set(partial)] of the auth store. *)
Definition set (p : AuthPatch) (s : AuthState) : AuthState :=
  {| user := merge_field (p_user p) (user s);
     isAuthenticated := merge_field (p_isAuthenticated p) (isAuthenticated s);
     isLoading := merge_field (p_isLoading p) (isLoading s);
     error := merge_field (p_error p) (error s) |}.

(** The state [create] starts from. *)
Definition initial : AuthState :=
  {| user := None; isAuthenticated := false; isLoading := false; error := None |}.

(** The hard-coded test account of [fakeLoginApi]. *)
Definition referenceCredentials : LoginInput.t :=
  {| LoginInput.email := "test@test.com"; LoginInput.password := "1234" |}.

Definition referenceUser : User :=
  {| id := "u_1"; name := "테스트유저"; email := "test@test.com" |}.

Definition rejectMessage : string :=
  "이메일 또는 비밀번호가 올바르지 않습니다.".

Definition fallbackMessage : string :=
  "로그인 중 알 수 없는 오류가 발생했습니다.".

(** The delay of the [setTimeout] in [fakeLoginApi], in milliseconds. *)
Definition fakeLoginApi_delay : nat := 700.

(** [fakeLoginApi(input)]: how the returned promise settles once its timer
    has fired. *)
Definition fakeLoginApi (input : LoginInput.t) : Settled User :=
  if (LoginInput.email input =? "test@test.com")
     && (LoginInput.password input =? "1234")
  then Fulfilled {| id := "u_1";
                    name := "테스트유저";
                    email := LoginInput.email input |}
  else Rejected (ErrorObject "이메일 또는 비밀번호가 올바르지 않습니다.").

(** [login], up to the [await]: [set({ isLoading: true, error: null })]. *)
Definition login_begin (s : AuthState) : AuthState :=
  set {| p_user := None;
         p_isAuthenticated := None;
         p_isLoading := Some true;
         p_error := Some None |} s.

(** [e instanceof Error ? e.message : "..."] of the [catch] clause. *)
Definition catch_message (e : Thrown) : string :=
  match e with
  | ErrorObject message => message
  | OtherValue => "로그인 중 알 수 없는 오류가 발생했습니다."
  end.

(** [login], from the [await] on: the [try] branch when the promise is
    fulfilled, the [catch] branch when it is rejected.  [s] is the state of
    the store at that moment. *)
Definition login_resume (r : Settled User) (s : AuthState) : AuthState :=
  match r with
  | Fulfilled u =>
      set {| p_user := Some (Some u);
             p_isAuthenticated := Some true;
             p_isLoading := Some false;
             p_error := None |} s
  | Rejected e =>
      let message := catch_message e in
      set {| p_user := Some None;
             p_isAuthenticated := Some false;
             p_isLoading := Some false;
             p_error := Some (Some message) |} s
  end.

(** A call of [login] that nothing else interleaves with. *)
Definition login (input : LoginInput.t) (s : AuthState) : AuthState :=
  login_resume (fakeLoginApi input) (login_begin s).

Definition logout (s : AuthState) : AuthState :=
  set {| p_user := Some None;
         p_isAuthenticated := Some false;
         p_isLoading := None;
         p_error := Some None |} s.

Definition setUser (u : option User) (s : AuthState) : AuthState :=
  set {| p_user := Some u;
         p_isAuthenticated := Some (Boolean u);
         p_isLoading := None;
         p_error := None |} s.

Definition clearError (s : AuthState) : AuthState :=
  set {| p_user := None;
         p_isAuthenticated := None;
         p_isLoading := None;
         p_error := Some None |} s.

(** *** The store over time

    The store and the [login] calls that wait for their timer.  The
    actions can be called in any order; a waiting [login] resumes when its
    timer fires.  The timers all have the same delay
    ([fakeLoginApi_delay]), so they fire in the order of the calls
    ([TimerFires 0]); the events below allow any waiting call to resume,
    which covers that order too. *)
Record World : Type := mkWorld {
  store : AuthState;
  awaiting : list LoginInput.t
}.

Inductive Event : Type :=
  | CallLogin (input : LoginInput.t)
  | TimerFires (i : nat)
  | CallLogout
  | CallSetUser (u : option User)
  | CallClearError.

Definition remove_nth {A : Type} (i : nat) (l : list A) : list A :=
  firstn i l ++ skipn (S i) l.

Definition step (w : World) (ev : Event) : World :=
  match ev with
  | CallLogin input =>
      {| store := login_begin (store w); awaiting := awaiting w ++ [input] |}
  | TimerFires i =>
      match nth_error (awaiting w) i with
      | Some input =>
          {| store := login_resume (fakeLoginApi input) (store w);
             awaiting := remove_nth i (awaiting w) |}
      | None => w
      end
  | CallLogout => {| store := logout (store w); awaiting := awaiting w |}
  | CallSetUser u => {| store := setUser u (store w); awaiting := awaiting w |}
  | CallClearError => {| store := clearError (store w); awaiting := awaiting w |}
  end.

Definition run (evs : list Event) (w : World) : World := fold_left step evs w.

Definition initial_world : World := {| store := initial; awaiting := [] |}.

(** [isAuthenticated] is [Boolean(user)]. *)
Definition consistent (s : AuthState) : Prop :=
  isAuthenticated s = Boolean (user s).

End Auth.

(** ** The counter store, [src/stores/counter.store.ts] *)

Module Counter.

Import Zustand Number.

(** [type CounterState = { count: number }] *)
Record CounterState : Type := mkCounterState {
  count : number
}.

Record CounterPatch : Type := mkCounterPatch {
  p_count : option number
}.

(** [set(partial)] and [set(fn)] of the counter store. *)
Definition set (p : CounterPatch) (s : CounterState) : CounterState :=
  {| count := merge_field (p_count p) (count s) |}.

Definition set_fn (f : CounterState -> CounterPatch) (s : CounterState)
  : CounterState :=
  set (f s) s.

Definition initial : CounterState := {| count := of_int 0 |}.

Definition increase (s : CounterState) : CounterState :=
  set_fn (fun state => {| p_count := Some (num_add (count state) (of_int 1)) |}) s.

Definition decrease (s : CounterState) : CounterState :=
  set_fn (fun state => {| p_count := Some (num_sub (count state) (of_int 1)) |}) s.

(** [get()] is the current state [s]. *)
Definition increaseBy (by_ : number) (s : CounterState) : CounterState :=
  set {| p_count := Some (num_add (count s) by_) |} s.

Definition reset (s : CounterState) : CounterState :=
  set {| p_count := Some (of_int 0) |} s.

Definition canDecrease (s : CounterState) : bool :=
  num_gt (count s) (of_int 0).

End Counter.

(** ** Calls of the auth store while a [login] waits *)

Module AuthTrace.

Import Auth.

(** The actions that run to their end when called. *)
Definition is_sync (ev : Event) : bool :=
  match ev with
  | CallLogout => true
  | CallSetUser _ => true
  | CallClearError => true
  | CallLogin _ => false
  | TimerFires _ => false
  end.

(** The errors [fakeLoginApi] can cause. *)
Definition known_error (s : AuthState) : Prop :=
  error s = None \/ error s = Some rejectMessage.

End AuthTrace.

(** ** Sequences of counter actions *)

Module CounterRun.

Import Number Counter.
Local Open Scope Z_scope.

Inductive Action : Type :=
  | Increase
  | Decrease
  | IncreaseBy (by_ : number)
  | Reset.

Definition act (s : CounterState) (a : Action) : CounterState :=
  match a with
  | Increase => increase s
  | Decrease => decrease s
  | IncreaseBy by_ => increaseBy by_ s
  | Reset => reset s
  end.

Definition run (acts : list Action) (s : CounterState) : CounterState :=
  fold_left act acts s.

Definition is_reset (a : Action) : bool :=
  match a with
  | Reset => true
  | _ => false
  end.

(** The same actions on an integer counter, to compare the store with:
    [increaseBy] is called with the number of an integer. *)
Inductive IntAction : Type :=
  | Inc
  | Dec
  | IncBy (n : Z)
  | Zero.

Definition call (a : IntAction) : Action :=
  match a with
  | Inc => Increase
  | Dec => Decrease
  | IncBy n => IncreaseBy (of_int n)
  | Zero => Reset
  end.

Definition int_act (c : Z) (a : IntAction) : Z :=
  match a with
  | Inc => c + 1
  | Dec => c - 1
  | IncBy n => c + n
  | Zero => 0
  end.

Definition int_run (acts : list IntAction) (c : Z) : Z := fold_left int_act acts c.

Definition arg_in_range (a : IntAction) : bool :=
  match a with
  | IncBy n => Z.abs n <=? 2 ^ 53
  | _ => true
  end.

(** Every argument and every running total has magnitude at most [2^53]. *)
Fixpoint in_range (acts : list IntAction) (c : Z) : bool :=
  match acts with
  | [] => true
  | a :: rest =>
      arg_in_range a && (Z.abs (int_act c a) <=? 2 ^ 53) && in_range rest (int_act c a)
  end.

End CounterRun.

(** ** The counter panel, [src/CounterPanel.tsx] *)

Module CounterPanel.

Import Number Counter.

(** The values the panel negates: a function selected from the store, or
    a boolean.  [ToBoolean] of a function object is [true]. *)
Inductive Value : Type :=
  | VFunction (f : CounterState -> bool)
  | VBoolean (b : bool).

Definition ToBoolean (v : Value) : bool :=
  match v with
  | VFunction _ => true
  | VBoolean b => b
  end.

(** [!v] *)
Definition js_not (v : Value) : bool := negb (ToBoolean v).

(** A rendered [<button>]: a click on a disabled button does not reach
    its handler. *)
Record Button : Type := mkButton {
  disabled : bool;
  onClick : CounterState -> CounterState
}.

Record Rendered : Type := mkRendered {
  shown_count : number;
  increase_button : Button;
  decrease_button : Button;
  reset_button : Button
}.

(** The component: the five [useCounterStore] selections, then the JSX.
    [canDecrease] is the store's function itself; the JSX negates it
    without calling it. *)
Definition CounterPanel (s : CounterState) : Rendered :=
  let count := Counter.count s in
  let increase := Counter.increase in
  let decrease := Counter.decrease in
  let reset := Counter.reset in
  let canDecrease := VFunction Counter.canDecrease in
  {| shown_count := count;
     increase_button := {| disabled := false; onClick := increase |};
     decrease_button := {| disabled := js_not canDecrease; onClick := decrease |};
     reset_button := {| disabled := false; onClick := reset |} |}.

Inductive Click : Type :=
  | ClickIncrease
  | ClickDecrease
  | ClickReset.

Definition button (c : Click) (r : Rendered) : Button :=
  match c with
  | ClickIncrease => increase_button r
  | ClickDecrease => decrease_button r
  | ClickReset => reset_button r
  end.

(** A click on the panel as rendered from the current state. *)
Definition click (s : CounterState) (c : Click) : CounterState :=
  let b := button c (CounterPanel s) in
  if disabled b then s else onClick b s.

Definition clicks (cs : list Click) (s : CounterState) : CounterState :=
  fold_left click cs s.

End CounterPanel.

(** ** The auth panel, [AuthPanel] *)

Module AuthPanel.

Import Auth.
Local Open Scope string_scope.

(** The two [useState] cells of the component. *)
Record Form : Type := mkForm {
  email : string;
  password : string
}.

Definition initial_form : Form := {| email := "test@test.com"; password := "1234" |}.

(** The component with the store it reads and the [login] calls that wait. *)
Record App : Type := mkApp {
  world : World;
  form : Form
}.

Definition initial_app : App := {| world := initial_world; form := initial_form |}.

(** [error && (...)]: the error box is rendered when [error] is neither
    [null] nor the empty string. *)
Definition truthy (e : option string) : bool :=
  match e with
  | Some m => negb (m =? "")
  | None => false
  end.

(** What the JSX renders from the store. *)
Definition shows_logout (s : AuthState) : bool := isAuthenticated s.
Definition shows_form (s : AuthState) : bool := negb (isAuthenticated s).
Definition login_disabled (s : AuthState) : bool := isLoading s.
Definition shows_error (s : AuthState) : bool := truthy (error s).

(** What a user can do to the panel, and the timer of a waiting [login].
    An element that is not rendered, or a disabled button, takes no event;
    the panel is rendered again after every change of the store. *)
Inductive UIEvent : Type :=
  | TypeEmail (v : string)
  | TypePassword (v : string)
  | ClickLogin
  | ClickLogout
  | ClickClose
  | Timer (i : nat).

Definition ui_step (a : App) (ev : UIEvent) : App :=
  let s := store (world a) in
  match ev with
  | TypeEmail v =>
      if shows_form s
      then {| world := world a; form := {| email := v; password := password (form a) |} |}
      else a
  | TypePassword v =>
      if shows_form s
      then {| world := world a; form := {| email := email (form a); password := v |} |}
      else a
  | ClickLogin =>
      if shows_form s && negb (login_disabled s)
      then {| world := step (world a)
                         (CallLogin {| LoginInput.email := email (form a);
                                       LoginInput.password := password (form a) |});
              form := form a |}
      else a
  | ClickLogout =>
      if shows_logout s
      then {| world := step (world a) CallLogout; form := form a |}
      else a
  | ClickClose =>
      if shows_error s
      then {| world := step (world a) CallClearError; form := form a |}
      else a
  | Timer i => {| world := step (world a) (TimerFires i); form := form a |}
  end.

Definition ui_run (evs : list UIEvent) (a : App) : App := fold_left ui_step evs a.

(** What holds of the store between two events of the panel. *)
Definition settled (w : World) : Prop :=
  match awaiting w with
  | [] =>
      isLoading (store w) = false
      /\ ((user (store w) = Some referenceUser
           /\ isAuthenticated (store w) = true
           /\ error (store w) = None)
          \/ (user (store w) = None
              /\ isAuthenticated (store w) = false
              /\ (error (store w) = None \/ error (store w) = Some rejectMessage)))
  | [_] =>
      isLoading (store w) = true
      /\ user (store w) = None
      /\ isAuthenticated (store w) = false
      /\ error (store w) = None
  | _ :: _ :: _ => False
  end.

End AuthPanel.

(** * Properties *)

(** ** Integers as binary64 numbers *)

Module NumberFacts.

Import Number.
Local Open Scope Z_scope.

Lemma digits2_size p : digits2_pos p = Pos.size p.
Proof. induction p; simpl; congruence. Qed.

Lemma digits2_upper p : Zpos p < 2 ^ Zpos (digits2_pos p).
Proof.
  rewrite digits2_size. pose proof (Pos.size_gt p) as H.
  apply Pos2Z.pos_lt_pos in H. rewrite Pos2Z.inj_pow in H. exact H.
Qed.

Lemma digits2_lower p : 2 ^ Zpos (digits2_pos p) <= 2 * Zpos p.
Proof.
  rewrite digits2_size. pose proof (Pos.size_le p) as H.
  apply Pos2Z.pos_le_pos in H. rewrite Pos2Z.inj_pow in H. exact H.
Qed.

Lemma iter_xO_val m d : Zpos (Pos.iter xO m d) = Zpos m * 2 ^ Zpos d.
Proof.
  induction d as [|d IH] using Pos.peano_ind.
  - simpl. lia.
  - rewrite Pos.iter_succ, Pos2Z.inj_xO, IH, Pos2Z.inj_succ, Z.pow_succ_r by lia.
    ring.
Qed.

Lemma iter_xO_digits m d :
  digits2_pos (Pos.iter xO m d) = (digits2_pos m + d)%positive.
Proof.
  induction d as [|d IH] using Pos.peano_ind.
  - simpl. lia.
  - rewrite Pos.iter_succ. simpl. rewrite IH. lia.
Qed.

Lemma iter_pos_iter {A} (f : A -> A) p : forall x, iter_pos f p x = Pos.iter f x p.
Proof.
  induction p as [p IH|p IH|]; intros x; simpl.
  - rewrite !IH, !Pos.iter_swap. reflexivity.
  - rewrite !IH. reflexivity.
  - reflexivity.
Qed.

(** Shifting out [j] zero bits loses nothing. *)
Lemma shr_exact w j :
  iter_pos shr_1 j (Build_shr_record (Zpos (Pos.iter xO w j)) false false)
  = Build_shr_record (Zpos w) false false.
Proof.
  rewrite iter_pos_iter.
  induction j as [|j IH] using Pos.peano_ind.
  - reflexivity.
  - rewrite (Pos.iter_succ j positive), (Pos.iter_succ j shr_record), <- Pos.iter_swap.
    simpl. exact IH.
Qed.

(** A mantissa of 53 digits at an exponent in range is already rounded. *)
Lemma round_aux_normal s w t :
  Zpos (digits2_pos w) = 53 -> -1074 <= t <= 971 ->
  binary_round_aux 53 1024 s (Zpos w) t loc_Exact = S754_finite s w t.
Proof.
  intros Hd Ht.
  unfold binary_round_aux, shr_fexp, fexp, emin. cbn [Zdigits2 shr_record_of_loc].
  rewrite Hd.
  replace (Z.max (53 + t - 53) (3 - 1024 - 53) - t) with 0 by lia.
  cbn [shr shr_m loc_of_shr_record round_nearest_even Zdigits2].
  rewrite Hd.
  replace (Z.max (53 + t - 53) (3 - 1024 - 53) - t) with 0 by lia.
  cbn [shr shr_m].
  destruct (Z.leb_spec t (1024 - 53)); [reflexivity | lia].
Qed.

(** A mantissa of 53 digits followed by [j] zero bits rounds to its 53
    digits. *)
Lemma round_aux_shift s w j e :
  Zpos (digits2_pos w) = 53 -> -1074 <= e + Zpos j <= 971 ->
  binary_round_aux 53 1024 s (Zpos (Pos.iter xO w j)) e loc_Exact
  = S754_finite s w (e + Zpos j).
Proof.
  intros Hd Ht.
  unfold binary_round_aux, shr_fexp, fexp, emin. cbn [Zdigits2 shr_record_of_loc].
  rewrite iter_xO_digits, Pos2Z.inj_add, Hd.
  replace (Z.max (53 + Zpos j + e - 53) (3 - 1024 - 53) - e) with (Zpos j) by lia.
  cbn [shr]. rewrite shr_exact.
  cbn [shr_m loc_of_shr_record round_nearest_even Zdigits2 shr_record_of_loc].
  rewrite Hd.
  replace (Z.max (53 + (e + Zpos j) - 53) (3 - 1024 - 53) - (e + Zpos j)) with 0 by lia.
  cbn [shr shr_m].
  destruct (Z.leb_spec (e + Zpos j) (1024 - 53)); [reflexivity | lia].
Qed.

Lemma pow2_cancel a b x y K :
  0 <= x + K -> x <= y ->
  a * 2 ^ (x + K) = b * 2 ^ (y + K) -> a = b * 2 ^ (y - x).
Proof.
  intros Hx Hxy H.
  replace (y + K) with ((y - x) + (x + K)) in H by lia.
  rewrite (Z.pow_add_r 2 (y - x) (x + K)) in H by lia.
  rewrite Z.mul_assoc in H.
  apply Z.mul_reg_r in H; [exact H|].
  apply Z.pow_nonzero; lia.
Qed.

(** Rounding a mantissa [M] at exponent [e] that denotes the same value as
    the 53-digit mantissa [w] at exponent [t] gives exactly [(w, t)]. *)
Lemma binary_round_canon s w t M e K :
  Zpos (digits2_pos w) = 53 -> -1074 <= t <= 971 ->
  0 <= e + K -> 0 <= t + K ->
  Zpos M * 2 ^ (e + K) = Zpos w * 2 ^ (t + K) ->
  binary_round 53 1024 s M e = S754_finite s w t.
Proof.
  intros Hd Ht He HtK Hval.
  destruct (Z.lt_trichotomy e t) as [Hlt | [Heq | Hgt]].
  - (* [M] is [w] followed by [t - e] zero bits *)
    apply pow2_cancel in Hval; [|lia|lia].
    remember (Z.to_pos (t - e)) as j eqn:Hj.
    assert (Hje : Zpos j = t - e) by (subst j; rewrite Z2Pos.id; lia).
    rewrite <- Hje, <- iter_xO_val in Hval. injection Hval as ->.
    unfold binary_round, fexp, emin.
    rewrite iter_xO_digits, Pos2Z.inj_add, Hd.
    replace (Z.max (53 + Zpos j + e - 53) (3 - 1024 - 53)) with t by lia.
    unfold shl_align. rewrite <- Hje.
    rewrite round_aux_shift by (assumption || lia).
    f_equal. lia.
  - subst t. apply Z.mul_reg_r in Hval; [|apply Z.pow_nonzero; lia].
    injection Hval as ->.
    unfold binary_round, fexp, emin. rewrite Hd.
    replace (Z.max (53 + e - 53) (3 - 1024 - 53)) with e by lia.
    unfold shl_align. rewrite Z.sub_diag.
    apply round_aux_normal; assumption.
  - (* [w] is [M] followed by [e - t] zero bits *)
    symmetry in Hval. apply pow2_cancel in Hval; [|lia|lia].
    remember (Z.to_pos (e - t)) as j eqn:Hj.
    assert (Hje : Zpos j = e - t) by (subst j; rewrite Z2Pos.id; lia).
    rewrite <- Hje, <- iter_xO_val in Hval. injection Hval as ->.
    rewrite iter_xO_digits, Pos2Z.inj_add in Hd.
    unfold binary_round, fexp, emin.
    replace (Z.max (Zpos (digits2_pos M) + e - 53) (3 - 1024 - 53)) with t by lia.
    unfold shl_align.
    replace (t - e) with (Zneg j) by lia.
    apply round_aux_normal; [|assumption].
    rewrite iter_xO_digits, Pos2Z.inj_add. exact Hd.
Qed.

Lemma canon_exists p : Zpos p <= 2 ^ 53 -> exists w t, canon (Zpos p) w t.
Proof.
  intros Hp.
  pose proof (digits2_lower p) as Hlo. pose proof (digits2_upper p) as Hup.
  set (d := Zpos (digits2_pos p)) in *.
  assert (Hd : 1 <= d <= 54).
  { split; [subst d; lia|].
    destruct (Z_le_gt_dec d 54) as [H|H]; [exact H|exfalso].
    assert (2 ^ 55 <= 2 ^ d) by (apply Z.pow_le_mono_r; lia).
    change (2 ^ 55) with (2 * 2 ^ 54) in *. change (2 ^ 53) with 9007199254740992 in *.
    change (2 ^ 54) with 18014398509481984 in *. lia. }
  destruct (Z_le_gt_dec d 52) as [Hs|Hs]; [|destruct (Z.eq_dec d 53) as [H53|H53]].
  - exists (Pos.iter xO p (Z.to_pos (53 - d))), (d - 53).
    assert (Hj : Zpos (Z.to_pos (53 - d)) = 53 - d) by (rewrite Z2Pos.id; lia).
    unfold canon. rewrite iter_xO_digits, Pos2Z.inj_add, iter_xO_val, Hj.
    fold d. split; [lia|]. split; [lia|].
    rewrite <- Z.mul_assoc, <- Z.pow_add_r by lia. f_equal. f_equal. lia.
  - exists p, 0. unfold canon. fold d. repeat split; lia.
  - assert (d = 54) by lia. exists (Pos.iter xO 1 52)%positive, 1.
    assert (Zpos p = 2 ^ 53).
    { replace d with 54 in Hlo by lia. change (2 ^ 54) with (2 * 2 ^ 53) in Hlo. lia. }
    unfold canon. split; [reflexivity|]. split; [lia|].
    rewrite H0. reflexivity.
Qed.

Lemma of_int_pos p w t :
  canon (Zpos p) w t ->
  of_int (Zpos p) = S754_finite false w t /\ of_int (Zneg p) = S754_finite true w t.
Proof.
  intros (Hd & Ht & Hv).
  split; unfold of_int, binary_normalize, prec, emax;
    apply binary_round_canon with (K := 52); try lia; rewrite Hv; reflexivity.
Qed.

(** Sign and magnitude of the number of an integer of magnitude at most
    [2^53]. *)
Lemma of_int_cases z :
  Z.abs z <= 2 ^ 53 ->
  (z = 0 /\ of_int z = S754_zero false) \/
  (z <> 0 /\ exists w t, canon (Z.abs z) w t /\ of_int z = S754_finite (z <? 0) w t).
Proof.
  intros Hz. destruct z as [|p|p].
  - left. split; reflexivity.
  - right. split; [discriminate|].
    destruct (canon_exists p Hz) as (w & t & Hc).
    exists w, t. split; [exact Hc|]. apply (of_int_pos p w t Hc).
  - right. split; [discriminate|].
    destruct (canon_exists p Hz) as (w & t & Hc).
    exists w, t. split; [exact Hc|]. apply (of_int_pos p w t Hc).
Qed.

(** Normalising any mantissa and exponent that denote the integer [v]
    gives the number of [v]. *)
Lemma normalize_exact M e v :
  -52 <= e -> Z.abs v <= 2 ^ 53 -> M * 2 ^ (e + 52) = v * 2 ^ 52 ->
  binary_normalize 53 1024 M e false = of_int v.
Proof.
  intros He Hv HM.
  assert (Hp : 0 < 2 ^ (e + 52)) by (apply Z.pow_pos_nonneg; lia).
  assert (Hq : 0 < 2 ^ 52) by reflexivity.
  destruct M as [|p|p].
  - assert (v = 0) by nia. subst v. reflexivity.
  - assert (0 < v) by nia.
    destruct v as [|q|q]; try lia.
    destruct (canon_exists q Hv) as (w & t & Hc).
    rewrite (proj1 (of_int_pos q w t Hc)).
    destruct Hc as (Hd & Ht & Hc).
    cbn [binary_normalize]. apply binary_round_canon with (K := 52); try lia.
  - assert (v < 0) by nia.
    destruct v as [|q|q]; try lia.
    destruct (canon_exists q Hv) as (w & t & Hc).
    rewrite (proj2 (of_int_pos q w t Hc)).
    destruct Hc as (Hd & Ht & Hc).
    cbn [binary_normalize]. apply binary_round_canon with (K := 52); try lia.
Qed.

Lemma shl_align_val m ex ez :
  -52 <= ez <= ex ->
  Zpos (fst (shl_align m ex ez)) * 2 ^ (ez + 52) = Zpos m * 2 ^ (ex + 52).
Proof.
  intros H. unfold shl_align.
  destruct (ez - ex) as [|d|d] eqn:Hd; cbn [fst].
  - replace ex with ez by lia. reflexivity.
  - lia.
  - rewrite iter_xO_val, <- Z.mul_assoc, <- Z.pow_add_r by lia.
    f_equal. f_equal. lia.
Qed.

Lemma cond_Zopp_ltb z : cond_Zopp (z <? 0) (Z.abs z) = z.
Proof. unfold cond_Zopp. destruct (Z.ltb_spec z 0); lia. Qed.

Lemma cond_Zopp_mul s a k : cond_Zopp s a * k = cond_Zopp s (a * k).
Proof. destruct s; simpl; lia. Qed.

(** The signed mantissa of the number of [z], aligned to exponent [ez]. *)
Lemma aligned_val z w t ez :
  canon (Z.abs z) w t -> -52 <= ez <= t ->
  cond_Zopp (z <? 0) (Zpos (fst (shl_align w t ez))) * 2 ^ (ez + 52) = z * 2 ^ 52.
Proof.
  intros (_ & _ & Hv) He.
  rewrite cond_Zopp_mul, shl_align_val, Hv, <- cond_Zopp_mul, cond_Zopp_ltb by lia.
  reflexivity.
Qed.

(** Addition of integers is exact as long as the operands and the sum
    have magnitude at most [2^53]. *)
Lemma num_add_exact c n :
  Z.abs c <= 2 ^ 53 -> Z.abs n <= 2 ^ 53 -> Z.abs (c + n) <= 2 ^ 53 ->
  num_add (of_int c) (of_int n) = of_int (c + n).
Proof.
  intros Hc Hn Hs. unfold num_add, prec, emax.
  destruct (of_int_cases c Hc) as [[-> Hc'] | (Hc0 & wc & tc & Cc & Hc')];
  destruct (of_int_cases n Hn) as [[-> Hn'] | (Hn0 & wn & tn & Cn & Hn')].
  - reflexivity.
  - rewrite Z.add_0_l, Hc', Hn'. reflexivity.
  - rewrite Z.add_0_r, Hn', Hc'. reflexivity.
  - rewrite Hc', Hn'. cbn [SFadd].
    assert (-52 <= tc <= 1) by apply Cc. assert (-52 <= tn <= 1) by apply Cn.
    apply normalize_exact; [lia | exact Hs |].
    rewrite Z.mul_add_distr_r, !aligned_val by (assumption || lia). ring.
Qed.

Lemma num_sub_exact c n :
  Z.abs c <= 2 ^ 53 -> Z.abs n <= 2 ^ 53 -> Z.abs (c - n) <= 2 ^ 53 ->
  num_sub (of_int c) (of_int n) = of_int (c - n).
Proof.
  intros Hc Hn Hs. unfold num_sub, prec, emax.
  destruct (of_int_cases c Hc) as [[-> Hc'] | (Hc0 & wc & tc & Cc & Hc')];
  destruct (of_int_cases n Hn) as [[-> Hn'] | (Hn0 & wn & tn & Cn & Hn')].
  - reflexivity.
  - rewrite Hc', Hn'. cbn [SFsub]. rewrite Z.sub_0_l.
    destruct n as [|q|q]; [contradiction| |];
      cbn [Z.abs] in Cn; cbn [Z.opp Z.ltb Z.compare negb];
      symmetry; apply (of_int_pos q wn tn Cn).
  - rewrite Z.sub_0_r, Hn', Hc'. reflexivity.
  - rewrite Hc', Hn'. cbn [SFsub].
    assert (-52 <= tc <= 1) by apply Cc. assert (-52 <= tn <= 1) by apply Cn.
    apply normalize_exact; [lia | exact Hs |].
    rewrite Z.mul_sub_distr_r, !aligned_val by (assumption || lia). ring.
Qed.

(** [of_int c > 0] is [c > 0]. *)
Lemma num_gt_zero c :
  Z.abs c <= 2 ^ 53 -> (num_gt (of_int c) (of_int 0) = true <-> 0 < c).
Proof.
  intros Hc. unfold num_gt. change (of_int 0) with (S754_zero false).
  destruct (of_int_cases c Hc) as [[-> ->] | (Hc0 & w & t & _ & ->)].
  - cbn. split; [discriminate | lia].
  - unfold SFltb. cbn [SFcompare].
    destruct (Z.ltb_spec c 0); split; intros; try discriminate; try reflexivity; lia.
Qed.

(** Within the bound, [of_int] loses nothing. *)
Lemma to_int_of_int c : Z.abs c <= 2 ^ 53 -> to_int (of_int c) = Some c.
Proof.
  intros Hc.
  destruct (of_int_cases c Hc) as [[-> ->] | (Hc0 & w & t & (Hd & Ht & Hv) & ->)].
  - reflexivity.
  - unfold to_int. destruct (Z.leb_spec 0 t) as [Hge|Hlt].
    + rewrite Z.pow_add_r, Z.mul_assoc in Hv by lia.
      apply Z.mul_reg_r in Hv; [|discriminate].
      rewrite Hv. f_equal. apply cond_Zopp_ltb.
    + assert (H2 : 2 ^ (- t) <> 0) by (apply Z.pow_nonzero; lia).
      assert (Hw : Zpos w = Z.abs c * 2 ^ (- t)).
      { replace (2 ^ 52) with (2 ^ (- t) * 2 ^ (t + 52)) in Hv
          by (rewrite <- Z.pow_add_r by lia; f_equal; lia).
        rewrite Z.mul_assoc in Hv.
        apply Z.mul_reg_r in Hv; [exact Hv|]. apply Z.pow_nonzero; lia. }
      rewrite Hw, Z.mod_mul, Z.eqb_refl, Z.div_mul by exact H2.
      f_equal. apply cond_Zopp_ltb.
Qed.

Lemma pow2_ge_4 e : 2 <= e -> 4 <= 2 ^ e.
Proof. intros H. change 4 with (2 ^ 2). apply Z.pow_le_mono_r; lia. Qed.

Lemma cond_Zopp_sign s v : 0 < v -> (cond_Zopp s v <? 0) = s /\ Z.abs (cond_Zopp s v) = v.
Proof.
  intros Hv. destruct s; cbn; split; lia.
Qed.

Lemma of_int_canon c w t :
  c <> 0 -> canon (Z.abs c) w t -> of_int c = S754_finite (c <? 0) w t.
Proof.
  intros Hc0 Hc. destruct c as [|p|p]; [contradiction| |]; cbn [Z.abs] in Hc;
    apply (of_int_pos p w t Hc).
Qed.

(** A valid number that is an integer of magnitude at most [2^53] is the
    number of that integer, or is [-0]. *)
Lemma to_int_inv x c :
  valid_number x -> to_int x = Some c -> Z.abs c <= 2 ^ 53 ->
  x = of_int c \/ (x = S754_zero true /\ c = 0).
Proof.
  intros Hv Hi Hc. destruct x as [s| s | | s m e]; cbn [to_int] in Hi; try discriminate.
  - injection Hi as <-. destruct s; [right; split; reflexivity | left; reflexivity].
  - left.
    unfold valid_number, valid_binary, bounded, canonical_mantissa, fexp, emin, prec, emax in Hv.
    apply andb_prop in Hv as [Hcan Hle]. apply Z.eqb_eq in Hcan. apply Z.leb_le in Hle.
    pose proof (digits2_lower m) as Hlo. pose proof (digits2_upper m) as Hup.
    set (d := Zpos (digits2_pos m)) in *.
    assert (Hd1 : 1 <= d) by (subst d; lia).
    assert (H53 : 2 ^ d <= 2 ^ 53 \/ 53 < d).
    { destruct (Z_le_gt_dec d 53); [left; apply Z.pow_le_mono_r; lia | right; lia]. }
    destruct (Z.leb_spec 0 e) as [He|He].
    + assert (c = cond_Zopp s (Zpos m * 2 ^ e)) as -> by congruence.
      assert (Hm : 0 < Zpos m * 2 ^ e) by (apply Z.mul_pos_pos; [lia | apply Z.pow_pos_nonneg; lia]).
      destruct (cond_Zopp_sign s _ Hm) as [Hs Ha]. rewrite Ha in Hc.
      assert (d = 53) by lia.
      assert (Hlo' : 2 ^ 53 <= 2 * Zpos m) by (rewrite <- H; exact Hlo).
      assert (e <= 1).
      { destruct (Z_le_gt_dec e 1); [assumption|exfalso].
        pose proof (pow2_ge_4 e ltac:(lia)). nia. }
      rewrite <- Hs at 1. symmetry. apply of_int_canon.
      * intros H1. rewrite H1 in Ha. change (Z.abs 0) with 0 in Ha. lia.
      * rewrite Ha. unfold canon. fold d. split; [assumption|]. split; [lia|].
        rewrite Z.pow_add_r by lia. ring.
    + destruct (Z.eqb_spec (Zpos m mod 2 ^ (- e)) 0) as [Hmod|Hmod]; [|discriminate].
      injection Hi as <-.
      assert (H2 : 0 < 2 ^ (- e)) by (apply Z.pow_pos_nonneg; lia).
      pose proof (Z.div_mod (Zpos m) (2 ^ (- e)) ltac:(lia)) as Hdm.
      rewrite Hmod, Z.add_0_r in Hdm.
      set (q := Zpos m / 2 ^ (- e)) in *.
      assert (Hq : 0 < q) by nia.
      destruct (cond_Zopp_sign s _ Hq) as [Hs Ha]. rewrite Ha in Hc.
      assert (Hne : e <> -1074).
      { intros ->. destruct H53 as [H53|H53]; [|lia].
        assert (2 ^ 53 < 2 ^ (- -1074)) by reflexivity. nia. }
      assert (d = 53) by lia.
      assert (Hup' : Zpos m < 2 ^ 53) by (rewrite <- H; exact Hup).
      assert (- e < 53).
      { apply (Z.pow_lt_mono_r_iff 2); [lia|lia|]. nia. }
      rewrite <- Hs at 1. symmetry. apply of_int_canon.
      * intros H1. rewrite H1 in Ha. change (Z.abs 0) with 0 in Ha. lia.
      * rewrite Ha. unfold canon. fold d. split; [assumption|]. split; [lia|].
        rewrite Hdm.
        replace (2 ^ 52) with (2 ^ (- e) * 2 ^ (e + 52))
          by (rewrite <- Z.pow_add_r by lia; f_equal; lia).
        ring.
Qed.

(** A number that is the integer [c] is greater than zero exactly when
    [c] is. *)
Lemma num_gt_zero_int x c :
  to_int x = Some c -> (num_gt x (of_int 0) = true <-> 0 < c).
Proof.
  unfold num_gt. change (of_int 0) with (S754_zero false).
  intros Hi. destruct x as [s| s | | s m e]; cbn [to_int] in Hi; try discriminate.
  - injection Hi as <-. cbn. split; [discriminate | lia].
  - assert (Hpos : exists v, 0 < v /\ c = cond_Zopp s v).
    { destruct (Z.leb_spec 0 e) as [He|He].
      - exists (Zpos m * 2 ^ e). split; [|congruence].
        apply Z.mul_pos_pos; [lia | apply Z.pow_pos_nonneg; lia].
      - destruct (Z.eqb_spec (Zpos m mod 2 ^ (- e)) 0) as [Hmod|Hmod]; [|discriminate].
        exists (Zpos m / 2 ^ (- e)). split; [|congruence].
        assert (H2 : 0 < 2 ^ (- e)) by (apply Z.pow_pos_nonneg; lia).
        pose proof (Z.div_mod (Zpos m) (2 ^ (- e)) ltac:(lia)) as Hdm.
        rewrite Hmod, Z.add_0_r in Hdm. nia. }
    destruct Hpos as (v & Hv & ->).
    unfold SFltb. cbn [SFcompare]. destruct s; cbn; split; intros; try discriminate; try reflexivity; lia.
Qed.

Lemma num_add_int x y c n :
  valid_number x -> valid_number y ->
  to_int x = Some c -> to_int y = Some n ->
  Z.abs c <= 2 ^ 53 -> Z.abs n <= 2 ^ 53 -> Z.abs (c + n) <= 2 ^ 53 ->
  to_int (num_add x y) = Some (c + n).
Proof.
  intros Vx Vy Hx Hy Hc Hn Hs.
  destruct (to_int_inv x c Vx Hx Hc) as [-> | [-> ->]];
  destruct (to_int_inv y n Vy Hy Hn) as [-> | [-> ->]].
  - rewrite num_add_exact by assumption. apply to_int_of_int, Hs.
  - rewrite Z.add_0_r.
    destruct (of_int_cases c Hc) as [[-> Hc'] | (Hc0 & w & t & _ & Hc')]; rewrite Hc'.
    + reflexivity.
    + unfold num_add. cbn [SFadd]. rewrite <- Hc'. apply to_int_of_int, Hc.
  - rewrite Z.add_0_l.
    destruct (of_int_cases n Hn) as [[-> Hn'] | (Hn0 & w & t & _ & Hn')]; rewrite Hn'.
    + reflexivity.
    + unfold num_add. cbn [SFadd]. rewrite <- Hn'. apply to_int_of_int, Hn.
  - reflexivity.
Qed.

(** Subtracting the literal [1]. *)
Lemma num_sub_one_int x c :
  valid_number x -> to_int x = Some c ->
  Z.abs c <= 2 ^ 53 -> Z.abs (c - 1) <= 2 ^ 53 ->
  to_int (num_sub x (of_int 1)) = Some (c - 1).
Proof.
  intros Vx Hx Hc Hs.
  destruct (to_int_inv x c Vx Hx Hc) as [-> | [-> ->]].
  - rewrite num_sub_exact; [apply to_int_of_int, Hs | assumption | | assumption].
    cbn. lia.
  - reflexivity.
Qed.

End NumberFacts.

(** ** The auth store *)

Module AuthSpec.

Import Zustand JS Auth.
Local Open Scope string_scope.

Lemma consistent_iff s :
  consistent s <-> (isAuthenticated s = true <-> user s <> None).
Proof.
  unfold consistent. destruct (isAuthenticated s), (user s) as [u|]; cbn.
  - split; [intros _; split; [discriminate | reflexivity] | reflexivity].
  - split; [discriminate | intros [H _]; exfalso; apply H; reflexivity].
  - split; [discriminate | intros [_ H]; apply H; discriminate].
  - split; [intros _; split; [discriminate | intros H; exfalso; apply H; reflexivity]
           | reflexivity].
Qed.

Lemma consistent_initial : consistent initial.
Proof. reflexivity. Qed.

Lemma consistent_login_begin s : consistent s -> consistent (login_begin s).
Proof. intros H. exact H. Qed.

Lemma consistent_login_resume r s : consistent (login_resume r s).
Proof. destruct r; reflexivity. Qed.

Lemma consistent_logout s : consistent (logout s).
Proof. reflexivity. Qed.

Lemma consistent_setUser u s : consistent (setUser u s).
Proof. reflexivity. Qed.

Lemma consistent_clearError s : consistent s -> consistent (clearError s).
Proof. intros H. exact H. Qed.

Lemma consistent_step w ev : consistent (store w) -> consistent (store (step w ev)).
Proof.
  intros H. destruct ev as [input | i | | u | ]; cbn [step store].
  - apply consistent_login_begin, H.
  - destruct (nth_error (awaiting w) i); cbn [store].
    + apply consistent_login_resume.
    + exact H.
  - apply consistent_logout.
  - apply consistent_setUser.
  - apply consistent_clearError, H.
Qed.

Lemma consistent_run evs : forall w, consistent (store w) -> consistent (store (run evs w)).
Proof.
  unfold run. induction evs as [|ev evs IH]; intros w H; cbn [fold_left].
  - exact H.
  - apply IH, consistent_step, H.
Qed.

(** C1. In every state the store reaches from its initial state, by calls
    of [login], [logout], [setUser] and [clearError] in any order and
    with the waiting [login] calls resuming at any point in between,
    [isAuthenticated] is true exactly when [user] is not [null]. *)
Theorem auth_invariant :
  forall evs : list Event,
    isAuthenticated (store (run evs initial_world)) = true
    <-> user (store (run evs initial_world)) <> None.
Proof.
  intros evs. apply consistent_iff, consistent_run, consistent_initial.
Qed.

Lemma fakeLoginApi_reference : fakeLoginApi referenceCredentials = Fulfilled referenceUser.
Proof. reflexivity. Qed.

Lemma fakeLoginApi_other input :
  input <> referenceCredentials ->
  fakeLoginApi input = Rejected (ErrorObject rejectMessage).
Proof.
  intros Hne. unfold fakeLoginApi.
  destruct (String.eqb_spec (LoginInput.email input) "test@test.com") as [He|He];
    [|reflexivity].
  destruct (String.eqb_spec (LoginInput.password input) "1234") as [Hp|Hp];
    [|reflexivity].
  exfalso. apply Hne. destruct input as [e p]. cbn in He, Hp. subst. reflexivity.
Qed.

Lemma rejectMessage_nonempty : rejectMessage <> "".
Proof. discriminate. Qed.




(** Two overlapping calls: a failing [login] resumes between the two steps
    of a [login] with the test account, and its error stays in the store
    when the second call succeeds. *)
Lemma overlapping_logins_keep_error :
  store (run [CallLogin {| LoginInput.email := "x@x.com"; LoginInput.password := "wrong" |};
              CallLogin referenceCredentials;
              TimerFires 0;
              TimerFires 0] initial_world)
  = {| user := Some referenceUser;
       isAuthenticated := true;
       isLoading := false;
       error := Some rejectMessage |}.
Proof. reflexivity. Qed.

(** C3. [login] with anything but the test account, once the promise has
    settled, leaves the store anonymous, not loading, with a non-empty
    error, whatever the store held when it was called and when it
    resumed.  The error is the [message] of the [Error] the promise was
    rejected with; the [catch] clause stores that message for any [Error]
    and the fallback text for any other thrown value. *)
Theorem login_other_fails (input : LoginInput.t) :
  input <> referenceCredentials ->
  (forall s : AuthState,
     login input s
     = {| user := None; isAuthenticated := false; isLoading := false;
          error := Some rejectMessage |})
  /\ (forall s : AuthState,
        login_resume (fakeLoginApi input) s
        = {| user := None; isAuthenticated := false; isLoading := false;
             error := Some rejectMessage |})
  /\ rejectMessage <> ""
  /\ fakeLoginApi input = Rejected (ErrorObject rejectMessage)
  /\ (forall (message : string) (s : AuthState),
        error (login_resume (Rejected (ErrorObject message)) s) = Some message)
  /\ (forall s : AuthState,
        error (login_resume (Rejected OtherValue) s) = Some fallbackMessage)
  /\ fallbackMessage <> "".
Proof.
  intros Hne. pose proof (fakeLoginApi_other input Hne) as Hapi.
  repeat split.
  - intros s. unfold login. rewrite Hapi. reflexivity.
  - intros s. rewrite Hapi. reflexivity.
  - exact rejectMessage_nonempty.
  - exact Hapi.
  - discriminate.
Qed.

Lemma login_other_fails_witness :
  {| LoginInput.email := "x@x.com"; LoginInput.password := "wrong" |}
    <> referenceCredentials
  /\ login {| LoginInput.email := "x@x.com"; LoginInput.password := "wrong" |} initial
     = {| user := None; isAuthenticated := false; isLoading := false;
          error := Some rejectMessage |}.
Proof.
  split.
  - discriminate.
  - apply (login_other_fails
             {| LoginInput.email := "x@x.com"; LoginInput.password := "wrong" |}).
    discriminate.
Defined.

(** C4. [fakeLoginApi] fulfils its promise exactly for the test account,
    with the user [u_1] carrying the email of the input; for every other
    input it rejects with an [Error] whose message is one fixed non-empty
    string. *)
Theorem fakeLoginApi_contract :
  forall input : LoginInput.t,
    ((exists u : User, fakeLoginApi input = Fulfilled u)
     <-> input = referenceCredentials)
    /\ (input = referenceCredentials ->
        fakeLoginApi input
        = Fulfilled {| id := "u_1"; name := "테스트유저"; email := LoginInput.email input |})
    /\ (input <> referenceCredentials ->
        fakeLoginApi input = Rejected (ErrorObject rejectMessage))
    /\ rejectMessage <> "".
Proof.
  intros input. split; [split|split; [|split]].
  - intros [u Hu].
    destruct input as [e p]. unfold fakeLoginApi in Hu. cbn in Hu.
    destruct (String.eqb_spec e "test@test.com") as [He|He]; [|discriminate].
    destruct (String.eqb_spec p "1234") as [Hp|Hp]; [|discriminate].
    subst. reflexivity.
  - intros ->. exists referenceUser. reflexivity.
  - intros ->. reflexivity.
  - apply fakeLoginApi_other.
  - exact rejectMessage_nonempty.
Qed.

Lemma fakeLoginApi_contract_witness :
  {| LoginInput.email := "test@test.com"; LoginInput.password := "12345" |}
    <> referenceCredentials
  /\ fakeLoginApi {| LoginInput.email := "test@test.com"; LoginInput.password := "12345" |}
     = Rejected (ErrorObject rejectMessage).
Proof.
  split.
  - discriminate.
  - apply (fakeLoginApi_contract
             {| LoginInput.email := "test@test.com"; LoginInput.password := "12345" |}).
    discriminate.
Defined.

(** C5. The first step of [login], for any input and any state of the
    store, sets [isLoading] and clears [error], keeps [user] and
    [isAuthenticated], and leaves the call waiting for its timer; so the
    store is never loading with an error when the attempt starts. *)
Theorem login_begin_clears_error :
  forall (w : World) (input : LoginInput.t),
    let w' := step w (CallLogin input) in
    isLoading (store w') = true
    /\ error (store w') = None
    /\ user (store w') = user (store w)
    /\ isAuthenticated (store w') = isAuthenticated (store w)
    /\ awaiting w' = (awaiting w ++ [input])%list
    /\ ~ (isLoading (store w') = true /\ error (store w') <> None).
Proof.
  intros w input. cbn. repeat split. intros [_ H]. apply H. reflexivity.
Qed.

(** C6. [logout] leaves [user] null, [isAuthenticated] false and [error]
    null from any state, and a second [logout] changes nothing. *)
Theorem logout_clears_session :
  forall s : AuthState,
    user (logout s) = None
    /\ isAuthenticated (logout s) = false
    /\ error (logout s) = None
    /\ logout (logout s) = logout s.
Proof. intros s. repeat split. Qed.

(** C7. [setUser(u)] stores [u], sets [isAuthenticated] to whether [u] is
    not null, and keeps [error] and [isLoading]; [setUser(null)] after it
    brings back a null user and [isAuthenticated] false. *)
Theorem setUser_frame :
  forall (s : AuthState) (u : option User),
    user (setUser u s) = u
    /\ (isAuthenticated (setUser u s) = true <-> u <> None)
    /\ isAuthenticated (setUser u s) = Boolean u
    /\ error (setUser u s) = error s
    /\ isLoading (setUser u s) = isLoading s
    /\ user (setUser None (setUser u s)) = None
    /\ isAuthenticated (setUser None (setUser u s)) = false.
Proof.
  intros s u. repeat split.
  - destruct u; cbn; congruence.
  - destruct u; cbn; [reflexivity | congruence].
Qed.

(** C10. [logout] keeps [isLoading]; called while a [login] waits for its
    timer, it leaves the store loading and the call waiting. *)
Theorem logout_keeps_isLoading :
  (forall s : AuthState, isLoading (logout s) = isLoading s)
  /\ (forall (w : World) (input : LoginInput.t),
        isLoading (store (run [CallLogin input; CallLogout] w)) = true
        /\ awaiting (run [CallLogin input; CallLogout] w) = (awaiting w ++ [input])%list).
Proof. split; [intros s | intros w input; split]; reflexivity. Qed.

End AuthSpec.

(** ** The counter store *)

Module CounterSpec.

Import Zustand Number Counter NumberFacts.
Local Open Scope Z_scope.

(** C8, as it holds.  When the count is the integer [c], the argument the
    integer [n], and [c], [n] and [c + n] have magnitude at most [2^53],
    [increaseBy] leaves the count at the integer [c + n]; [reset] leaves
    the count at [0] whatever it was. *)
Theorem increaseBy_reset_exact :
  (forall (s : CounterState) (by_ : number) (c n : Z),
     valid_number (count s) -> valid_number by_ ->
     to_int (count s) = Some c -> to_int by_ = Some n ->
     Z.abs c <= 2 ^ 53 -> Z.abs n <= 2 ^ 53 -> Z.abs (c + n) <= 2 ^ 53 ->
     to_int (count (increaseBy by_ s)) = Some (c + n))
  /\ (forall s : CounterState,
        count (reset s) = of_int 0 /\ to_int (count (reset s)) = Some 0).
Proof.
  split.
  - intros s by_ c n Vs Vb Hs Hb Hc Hn Hsum. cbn [increaseBy set merge_field p_count count].
    apply num_add_int; assumption.
  - intros s. split; reflexivity.
Qed.

Lemma increaseBy_reset_exact_witness :
  to_int (count (increaseBy (of_int 1) {| count := of_int (2 ^ 53 - 1) |}))
  = Some (2 ^ 53 - 1 + 1).
Proof.
  apply (proj1 increaseBy_reset_exact
           {| count := of_int (2 ^ 53 - 1) |} (of_int 1) (2 ^ 53 - 1) 1).
  - reflexivity.
  - reflexivity.
  - reflexivity.
  - reflexivity.
  - vm_compute. discriminate.
  - vm_compute. discriminate.
  - vm_compute. discriminate.
Defined.

(** C8, as stated, fails.  The count [2^53] is reached from the initial
    state by [increaseBy(2^53)]; [increaseBy(1)] then leaves it at [2^53],
    not at [2^53 + 1]. *)
Lemma increaseBy_rounds_past_2_53 :
  valid_number (count (increaseBy (of_int (2 ^ 53)) initial))
  /\ to_int (count (increaseBy (of_int (2 ^ 53)) initial)) = Some (2 ^ 53)
  /\ valid_number (of_int 1)
  /\ to_int (of_int 1) = Some 1
  /\ to_int (count (increaseBy (of_int 1) (increaseBy (of_int (2 ^ 53)) initial)))
     = Some (2 ^ 53)
  /\ to_int (count (increaseBy (of_int 1) (increaseBy (of_int (2 ^ 53)) initial)))
     <> Some (2 ^ 53 + 1).
Proof.
  repeat split; try reflexivity. vm_compute. discriminate.
Qed.

(** C9, as it holds.  [canDecrease()] is [count > 0]: true exactly when
    the count compares greater than zero, which for a count that is the
    integer [c] means [0 < c]; it is false after [reset()].  [decrease()]
    does not consult [canDecrease()]: from a count that is the integer
    [c] it reaches [c - 1] when [c] and [c - 1] have magnitude at most
    [2^53], also when [c <= 0] and [canDecrease()] is false, so that the
    count becomes negative; after [reset()] it reaches [-1]. *)
Theorem canDecrease_decrease :
  (forall s : CounterState,
     canDecrease s = true <-> SFcompare (count s) (of_int 0) = Some Gt)
  /\ (forall (s : CounterState) (c : Z),
        to_int (count s) = Some c -> (canDecrease s = true <-> 0 < c))
  /\ (forall s : CounterState, canDecrease (reset s) = false)
  /\ (forall (s : CounterState) (c : Z),
        valid_number (count s) -> to_int (count s) = Some c ->
        Z.abs c <= 2 ^ 53 -> Z.abs (c - 1) <= 2 ^ 53 ->
        to_int (count (decrease s)) = Some (c - 1))
  /\ (forall (s : CounterState) (c : Z),
        valid_number (count s) -> to_int (count s) = Some c ->
        c <= 0 -> Z.abs (c - 1) <= 2 ^ 53 ->
        canDecrease s = false
        /\ to_int (count (decrease s)) = Some (c - 1)
        /\ c - 1 < 0)
  /\ (forall s : CounterState,
        canDecrease (reset s) = false
        /\ to_int (count (decrease (reset s))) = Some (-1)).
Proof.
  split; [|split; [|split; [|split; [|split]]]].
  - intros [x]. unfold canDecrease, num_gt, SFltb. cbn [count].
    change (of_int 0) with (S754_zero false).
    destruct x as [s | s | | s m e]; cbn; try destruct s; split; congruence.
  - intros s c Hs. apply num_gt_zero_int, Hs.
  - intros s. reflexivity.
  - intros s c Vs Hs Hc Hd. cbn [decrease set_fn set merge_field p_count count].
    apply num_sub_one_int; assumption.
  - intros s c Vs Hs Hc Hd. split; [|split; [|lia]].
    + destruct (canDecrease s) eqn:E; [|reflexivity].
      apply (num_gt_zero_int (count s) c Hs) in E. lia.
    + cbn [decrease set_fn set merge_field p_count count].
      apply num_sub_one_int; [assumption | assumption | lia | assumption].
  - intros s. split; reflexivity.
Qed.

Lemma canDecrease_decrease_witness :
  (canDecrease {| count := of_int (-3) |} = true <-> 0 < -3)
  /\ to_int (count (decrease {| count := of_int (-3) |})) = Some (-3 - 1).
Proof.
  split.
  - apply (proj1 (proj2 canDecrease_decrease) {| count := of_int (-3) |} (-3)).
    reflexivity.
  - apply (proj1 (proj2 (proj2 (proj2 canDecrease_decrease)))
             {| count := of_int (-3) |} (-3)).
    + reflexivity.
    + reflexivity.
    + vm_compute. discriminate.
    + vm_compute. discriminate.
Defined.

(** C9, as stated, fails.  The count [-2^53] is reached from the initial
    state by [increaseBy(-(2^53))]; [canDecrease()] is false there and
    [decrease()] leaves the count at [-2^53], not at [-2^53 - 1]. *)
Lemma decrease_rounds_below_minus_2_53 :
  valid_number (count (increaseBy (of_int (- 2 ^ 53)) initial))
  /\ to_int (count (increaseBy (of_int (- 2 ^ 53)) initial)) = Some (- 2 ^ 53)
  /\ canDecrease (increaseBy (of_int (- 2 ^ 53)) initial) = false
  /\ to_int (count (decrease (increaseBy (of_int (- 2 ^ 53)) initial)))
     = Some (- 2 ^ 53)
  /\ to_int (count (decrease (increaseBy (of_int (- 2 ^ 53)) initial)))
     <> Some (- 2 ^ 53 - 1).
Proof.
  repeat split; try reflexivity. vm_compute. discriminate.
Qed.

End CounterSpec.

(** ** The auth store over sequences of events *)

Module AuthRuns.

Import Zustand JS Auth AuthTrace.
Local Open Scope string_scope.

Lemma auth_run_cons ev evs w : run (ev :: evs) w = run evs (step w ev).
Proof. reflexivity. Qed.

Lemma run_app evs1 evs2 w : run (evs1 ++ evs2)%list w = run evs2 (run evs1 w).
Proof. unfold run. apply fold_left_app. Qed.

(** The promise of [fakeLoginApi] is fulfilled with the test user or
    rejected with the one message. *)
Lemma fakeLoginApi_cases input :
  fakeLoginApi input = Fulfilled referenceUser
  \/ fakeLoginApi input = Rejected (ErrorObject rejectMessage).
Proof.
  unfold fakeLoginApi.
  destruct (String.eqb_spec (LoginInput.email input) "test@test.com") as [He|He];
    [|right; reflexivity].
  destruct (LoginInput.password input =? "1234"); [left|right; reflexivity].
  cbn. rewrite He. reflexivity.
Qed.

Lemma in_flight_step w ev :
  (isLoading (store w) = true -> awaiting w <> []) ->
  isLoading (store (step w ev)) = true -> awaiting (step w ev) <> [].
Proof.
  intros H. destruct ev as [input | i | | u | ]; cbn [step].
  - intros _. cbn [awaiting]. destruct (awaiting w); discriminate.
  - destruct (nth_error (awaiting w) i) as [input|]; [|exact H].
    cbn [store]. destruct (fakeLoginApi input); cbn; discriminate.
  - exact H.
  - exact H.
  - exact H.
Qed.

Lemma in_flight_run evs :
  forall w,
    (isLoading (store w) = true -> awaiting w <> []) ->
    isLoading (store (run evs w)) = true -> awaiting (run evs w) <> [].
Proof.
  induction evs as [|ev evs IH]; intros w H.
  - exact H.
  - rewrite auth_run_cons. apply IH, in_flight_step, H.
Qed.

(** X1. Whenever the store is loading, a [login] call is waiting for its
    timer: [isLoading] is set only by the first step of [login] and
    nothing but the last step of a [login] removes a waiting call. *)
Theorem loading_has_login_in_flight (evs : list Event) :
  isLoading (store (run evs initial_world)) = true ->
  awaiting (run evs initial_world) <> [].
Proof. apply in_flight_run. cbn. discriminate. Qed.

Lemma loading_has_login_in_flight_witness :
  isLoading (store (run [CallSetUser None; CallLogin referenceCredentials; CallLogout]
                        initial_world)) = true
  /\ awaiting (run [CallSetUser None; CallLogin referenceCredentials; CallLogout]
                   initial_world) <> [].
Proof.
  split.
  - reflexivity.
  - apply (loading_has_login_in_flight
             [CallSetUser None; CallLogin referenceCredentials; CallLogout]).
    reflexivity.
Defined.

(** The converse fails when calls overlap: the first [login] to resume
    ends the loading state while the second still waits. *)
Lemma loading_ends_early :
  isLoading (store (run [CallLogin referenceCredentials;
                         CallLogin referenceCredentials;
                         TimerFires 0] initial_world)) = false
  /\ awaiting (run [CallLogin referenceCredentials;
                    CallLogin referenceCredentials;
                    TimerFires 0] initial_world) = [referenceCredentials].
Proof. split; reflexivity. Qed.

Lemma known_error_step w ev : known_error (store w) -> known_error (store (step w ev)).
Proof.
  intros H. destruct ev as [input | i | | u | ]; cbn [step store].
  - left. reflexivity.
  - destruct (nth_error (awaiting w) i) as [input|]; [|exact H].
    cbn [store]. destruct (fakeLoginApi_cases input) as [-> | ->].
    + exact H.
    + right. reflexivity.
  - left. reflexivity.
  - exact H.
  - left. reflexivity.
Qed.

Lemma known_error_run evs :
  forall w, known_error (store w) -> known_error (store (run evs w)).
Proof.
  induction evs as [|ev evs IH]; intros w H.
  - exact H.
  - rewrite auth_run_cons. apply IH, known_error_step, H.
Qed.

(** X2. The only error the store ever holds is the message of
    [fakeLoginApi]'s rejection: [error] is [null] or that message in every
    reachable state, so the fallback text of the [catch] clause and the
    empty string are never stored. *)
Theorem error_is_reject_message :
  forall evs : list Event,
    (error (store (run evs initial_world)) = None
     \/ error (store (run evs initial_world)) = Some rejectMessage)
    /\ error (store (run evs initial_world)) <> Some fallbackMessage
    /\ error (store (run evs initial_world)) <> Some "".
Proof.
  intros evs.
  assert (H : known_error (store (run evs initial_world))).
  { apply known_error_run. left. reflexivity. }
  split; [exact H|].
  destruct H as [-> | ->]; split; discriminate.
Qed.

Lemma user_origin_step w ev u :
  user (store (step w ev)) = Some u ->
  user (store w) = Some u \/ u = referenceUser \/ ev = CallSetUser (Some u).
Proof.
  destruct ev as [input | i | | x | ]; cbn [step store].
  - intros H. left. exact H.
  - destruct (nth_error (awaiting w) i) as [input|]; [|intros H; left; exact H].
    cbn [store]. destruct (fakeLoginApi_cases input) as [-> | ->]; cbn.
    + intros H. right. left. congruence.
    + discriminate.
  - cbn. discriminate.
  - cbn. intros ->. right. right. reflexivity.
  - intros H. left. exact H.
Qed.

Lemma user_origin_run evs u :
  forall w,
    user (store (run evs w)) = Some u ->
    user (store w) = Some u \/ u = referenceUser \/ In (CallSetUser (Some u)) evs.
Proof.
  induction evs as [|ev evs IH]; intros w H.
  - left. exact H.
  - rewrite auth_run_cons in H.
    destruct (IH _ H) as [H1 | [H1 | H1]].
    + destruct (user_origin_step w ev u H1) as [H2 | [H2 | H2]].
      * left. exact H2.
      * right. left. exact H2.
      * right. right. left. exact H2.
    + right. left. exact H1.
    + right. right. right. exact H1.
Qed.

(** X3. A user in the store is the test user [u_1] that [fakeLoginApi]
    returns, or was handed to [setUser]: [login] never stores anyone
    else. *)
Theorem user_origin (evs : list Event) (u : User) :
  user (store (run evs initial_world)) = Some u ->
  u = referenceUser \/ In (CallSetUser (Some u)) evs.
Proof.
  intros H. destruct (user_origin_run evs u initial_world H) as [H1 | H1].
  - discriminate.
  - exact H1.
Qed.

Lemma user_origin_witness :
  user (store (run [CallLogin referenceCredentials; CallLogout; TimerFires 0]
                   initial_world)) = Some referenceUser
  /\ (referenceUser = referenceUser
      \/ In (CallSetUser (Some referenceUser))
            [CallLogin referenceCredentials; CallLogout; TimerFires 0]).
Proof.
  split.
  - reflexivity.
  - apply (user_origin [CallLogin referenceCredentials; CallLogout; TimerFires 0]
             referenceUser).
    reflexivity.
Defined.

Lemma sync_step w ev :
  is_sync ev = true ->
  awaiting (step w ev) = awaiting w
  /\ (error (store w) = None -> error (store (step w ev)) = None).
Proof.
  destruct ev as [input | i | | u | ]; cbn [is_sync]; try discriminate; intros _;
    cbn; split; try reflexivity; intros H; try exact H; reflexivity.
Qed.

Lemma sync_run evs :
  forall w,
    forallb is_sync evs = true ->
    awaiting (run evs w) = awaiting w
    /\ (error (store w) = None -> error (store (run evs w)) = None).
Proof.
  induction evs as [|ev evs IH]; intros w H.
  - split; [reflexivity | intros E; exact E].
  - cbn [forallb] in H. apply andb_prop in H as [Hev Hevs].
    rewrite auth_run_cons.
    destruct (sync_step w ev Hev) as [Ha He].
    destruct (IH (step w ev) Hevs) as [Ha' He'].
    split.
    + rewrite Ha'. exact Ha.
    + intros E. apply He', He, E.
Qed.

Lemma login_resume_from r s1 s2 :
  error s1 = error s2 -> login_resume r s1 = login_resume r s2.
Proof.
  destruct s1 as [u1 a1 l1 e1], s2 as [u2 a2 l2 e2]. cbn. intros ->.
  destruct r; reflexivity.
Qed.

(** X4. Calls of [logout], [setUser] and [clearError] made while a
    [login] waits are lost: when the timer fires the store is what the
    [login] alone would have left, whatever was called in between. *)
Theorem sync_calls_overwritten (s : AuthState) (input : LoginInput.t)
    (evs : list Event) :
  forallb is_sync evs = true ->
  store (run (CallLogin input :: evs ++ [TimerFires 0])
             {| store := s; awaiting := [] |})
  = login input s.
Proof.
  intros H. rewrite auth_run_cons, run_app.
  cbn [step store awaiting app].
  destruct (sync_run evs {| store := login_begin s; awaiting := [input] |} H)
    as [Ha He].
  cbn [run fold_left step]. rewrite Ha. cbn [awaiting nth_error store].
  unfold login. apply login_resume_from. rewrite He; reflexivity.
Qed.

Lemma sync_calls_overwritten_witness :
  store (run (CallLogin referenceCredentials
              :: [CallLogout; CallSetUser None; CallClearError] ++ [TimerFires 0])
             {| store := initial; awaiting := [] |})
  = login referenceCredentials initial.
Proof.
  apply (sync_calls_overwritten initial referenceCredentials
           [CallLogout; CallSetUser None; CallClearError]).
  reflexivity.
Defined.

(** [clearError] changes nothing but [error], which it sets to
    [null]; it leaves the state as it is exactly when [error] is already
    [null]. *)
Lemma clearError_frame :
  forall s : AuthState,
    clearError s
    = {| user := user s;
         isAuthenticated := isAuthenticated s;
         isLoading := isLoading s;
         error := None |}
    /\ (clearError s = s <-> error s = None).
Proof.
  intros [u ia il e]. split; [reflexivity|].
  unfold clearError, set. cbn. split.
  - intros H. injection H as H. symmetry. exact H.
  - intros ->. reflexivity.
Qed.

End AuthRuns.

(** ** The auth panel *)

Module AuthPanelSpec.

Import Zustand JS Auth AuthTrace AuthPanel AuthRuns.
Local Open Scope string_scope.

Lemma ui_run_cons ev evs a : ui_run (ev :: evs) a = ui_run evs (ui_step a ev).
Proof. reflexivity. Qed.

Lemma settled_initial : settled (world initial_app).
Proof. cbn. split; [reflexivity|]. right. repeat split. left. reflexivity. Qed.

Lemma nth_error_nil_none {A : Type} (i : nat) : nth_error (@nil A) i = None.
Proof. destruct i; reflexivity. Qed.

Lemma settled_idle_signed_in f ev :
  settled (world (ui_step
    {| world := {| store := {| user := Some referenceUser; isAuthenticated := true;
                               isLoading := false; error := None |};
                   awaiting := [] |};
       form := f |} ev)).
Proof.
  destruct ev as [v | v | | | | i]; cbn; try rewrite nth_error_nil_none; cbn;
    (split; [reflexivity|]);
    try (left; repeat split; reflexivity);
    right; repeat split; left; reflexivity.
Qed.

Lemma settled_idle_signed_out f e ev :
  e = None \/ e = Some rejectMessage ->
  settled (world (ui_step
    {| world := {| store := {| user := None; isAuthenticated := false;
                               isLoading := false; error := e |};
                   awaiting := [] |};
       form := f |} ev)).
Proof.
  intros He.
  destruct ev as [v | v | | | | i]; cbn; try rewrite nth_error_nil_none; cbn.
  - split; [reflexivity|]. right. repeat split. exact He.
  - split; [reflexivity|]. right. repeat split. exact He.
  - repeat split.
  - split; [reflexivity|]. right. repeat split. exact He.
  - destruct He as [-> | ->]; cbn; (split; [reflexivity|]); right; repeat split;
      left; reflexivity.
  - split; [reflexivity|]. right. repeat split. exact He.
Qed.

Lemma settled_waiting f x ev :
  settled (world (ui_step
    {| world := {| store := {| user := None; isAuthenticated := false;
                               isLoading := true; error := None |};
                   awaiting := [x] |};
       form := f |} ev)).
Proof.
  destruct ev as [v | v | | | | i]; cbn; try (repeat split; fail).
  destruct i as [|i]; cbn.
  - destruct (fakeLoginApi_cases x) as [-> | ->]; cbn; (split; [reflexivity|]).
    + left. repeat split.
    + right. repeat split. right. reflexivity.
  - rewrite nth_error_nil_none. cbn. repeat split.
Qed.

Lemma settled_ui_step a ev : settled (world a) -> settled (world (ui_step a ev)).
Proof.
  destruct a as [[[u ia il e] l] f]. unfold settled at 1. cbn [world awaiting store].
  destruct l as [|x [|y l]]; cbn [user isAuthenticated isLoading error].
  - intros (-> & [(-> & -> & ->) | (-> & -> & He)]).
    + apply settled_idle_signed_in.
    + apply settled_idle_signed_out, He.
  - intros (-> & -> & -> & ->). apply settled_waiting.
  - intros [].
Qed.

Lemma settled_ui_run evs :
  forall a, settled (world a) -> settled (world (ui_run evs a)).
Proof.
  induction evs as [|ev evs IH]; intros a H.
  - exact H.
  - rewrite ui_run_cons. apply IH, settled_ui_step, H.
Qed.

(** X5. Driven through the panel, the store has at most one [login]
    waiting, and it is loading exactly while one waits: the login button
    is disabled while [isLoading] and hidden while authenticated. *)
Theorem panel_single_login_in_flight :
  forall evs : list UIEvent,
    (List.length (awaiting (world (ui_run evs initial_app))) <= 1)%nat
    /\ (isLoading (store (world (ui_run evs initial_app))) = true
        <-> awaiting (world (ui_run evs initial_app)) <> []).
Proof.
  intros evs.
  pose proof (settled_ui_run evs initial_app settled_initial) as H.
  unfold settled in H.
  destruct (awaiting (world (ui_run evs initial_app))) as [|x [|y l]].
  - destruct H as [Hl _]. split; [cbn; lia|]. rewrite Hl. split; [discriminate|].
    intros E. exfalso. apply E. reflexivity.
  - destruct H as [Hl _]. split; [cbn; lia|]. rewrite Hl. split; [discriminate|].
    reflexivity.
  - destruct H.
Qed.

(** X6. Driven through the panel, an authenticated store holds the test
    user, no error, is not loading and has no [login] waiting: the
    overlap of two [login] calls that leaves an error beside a user cannot
    be produced from the panel. *)
Theorem panel_authenticated_is_clean (evs : list UIEvent) :
  isAuthenticated (store (world (ui_run evs initial_app))) = true ->
  user (store (world (ui_run evs initial_app))) = Some referenceUser
  /\ error (store (world (ui_run evs initial_app))) = None
  /\ isLoading (store (world (ui_run evs initial_app))) = false
  /\ awaiting (world (ui_run evs initial_app)) = [].
Proof.
  intros Ha.
  pose proof (settled_ui_run evs initial_app settled_initial) as H.
  unfold settled in H.
  destruct (awaiting (world (ui_run evs initial_app))) as [|x [|y l]].
  - destruct H as (Hl & [(Hu & _ & He) | (_ & Hn & _)]).
    + repeat split; assumption.
    + rewrite Hn in Ha. discriminate.
  - destruct H as (_ & _ & Hn & _). rewrite Hn in Ha. discriminate.
  - destruct H.
Qed.

Lemma panel_authenticated_is_clean_witness :
  isAuthenticated (store (world (ui_run [ClickLogin; ClickLogin; Timer 0] initial_app)))
  = true
  /\ error (store (world (ui_run [ClickLogin; ClickLogin; Timer 0] initial_app))) = None.
Proof.
  split.
  - reflexivity.
  - apply (panel_authenticated_is_clean [ClickLogin; ClickLogin; Timer 0]).
    reflexivity.
Defined.

(** X7. Typing an email and a password into the fresh panel, pressing
    login and letting the timer fire signs in exactly when the two are the
    test account; otherwise the panel shows the error box and stays
    signed out. *)
Theorem panel_login_outcome :
  forall e p : string,
    let a := ui_run [TypeEmail e; TypePassword p; ClickLogin; Timer 0] initial_app in
    (isAuthenticated (store (world a)) = true
     <-> e = "test@test.com" /\ p = "1234")
    /\ (shows_error (store (world a)) = true
        <-> ~ (e = "test@test.com" /\ p = "1234"))
    /\ form a = {| email := e; password := p |}.
Proof.
  intros e p. cbn -[fakeLoginApi String.eqb]. unfold fakeLoginApi. cbn [LoginInput.email LoginInput.password].
  destruct (String.eqb_spec e "test@test.com") as [He|He];
    destruct (String.eqb_spec p "1234") as [Hp|Hp]; cbn.
  - split; [|split]; [split; auto | split; [discriminate | intros H; exfalso; apply H; auto] | reflexivity].
  - split; [|split]; [split; [discriminate | intros [_ H]; contradiction]
                     | split; [intros _ [_ H]; contradiction | reflexivity] | reflexivity].
  - split; [|split]; [split; [discriminate | intros [H _]; contradiction]
                     | split; [intros _ [H _]; contradiction | reflexivity] | reflexivity].
  - split; [|split]; [split; [discriminate | intros [H _]; contradiction]
                     | split; [intros _ [H _]; contradiction | reflexivity] | reflexivity].
Qed.

End AuthPanelSpec.

(** ** Sequences of counter actions *)

Module CounterRuns.

Import Zustand Number Counter CounterRun NumberFacts.
Local Open Scope Z_scope.

Lemma counter_run_cons a acts s : run (a :: acts) s = run acts (act s a).
Proof. reflexivity. Qed.

Lemma act_call_exact c a :
  Z.abs c <= 2 ^ 53 -> arg_in_range a = true -> Z.abs (int_act c a) <= 2 ^ 53 ->
  act {| count := of_int c |} (call a) = {| count := of_int (int_act c a) |}.
Proof.
  intros Hc Ha Hr. destruct a as [| | n |]; cbn [call act int_act] in *.
  - unfold increase, set_fn, set. cbn [merge_field p_count count].
    rewrite num_add_exact; [reflexivity | assumption | cbn; lia | assumption].
  - unfold decrease, set_fn, set. cbn [merge_field p_count count].
    rewrite num_sub_exact; [reflexivity | assumption | cbn; lia | assumption].
  - unfold increaseBy, set. cbn [merge_field p_count count].
    apply Z.leb_le in Ha.
    rewrite num_add_exact; [reflexivity | assumption | assumption | assumption].
  - reflexivity.
Qed.

Lemma run_call_exact acts :
  forall c,
    Z.abs c <= 2 ^ 53 -> in_range acts c = true ->
    run (map call acts) {| count := of_int c |} = {| count := of_int (int_run acts c) |}
    /\ Z.abs (int_run acts c) <= 2 ^ 53.
Proof.
  induction acts as [|a acts IH]; intros c Hc Hr.
  - split; [reflexivity | exact Hc].
  - cbn [in_range] in Hr.
    apply andb_prop in Hr as [Hr Hrest]. apply andb_prop in Hr as [Ha Hb].
    apply Z.leb_le in Hb.
    cbn [map]. rewrite counter_run_cons, act_call_exact by assumption.
    apply IH; assumption.
Qed.

(** X8. From the initial state, a sequence of [increase], [decrease],
    [increaseBy(n)] with integer [n], and [reset] leaves the count at the
    integer an integer counter would hold, as long as every [n] and every
    running total has magnitude at most [2^53]. *)
Theorem counter_follows_integers (acts : list IntAction) :
  in_range acts 0 = true ->
  count (run (map call acts) initial) = of_int (int_run acts 0)
  /\ to_int (count (run (map call acts) initial)) = Some (int_run acts 0).
Proof.
  intros Hr.
  destruct (run_call_exact acts 0 ltac:(cbn; lia) Hr) as [Hrun Hb].
  change initial with {| count := of_int 0 |}. rewrite Hrun. cbn [count].
  split; [reflexivity | apply to_int_of_int, Hb].
Qed.

Lemma counter_follows_integers_witness :
  to_int (count (run (map call [Dec; Dec; IncBy (2 ^ 53); Inc; Zero; IncBy (-7); Inc])
                     initial))
  = Some (int_run [Dec; Dec; IncBy (2 ^ 53); Inc; Zero; IncBy (-7); Inc] 0).
Proof.
  apply (counter_follows_integers
           [Dec; Dec; IncBy (2 ^ 53); Inc; Zero; IncBy (-7); Inc]).
  vm_compute. reflexivity.
Defined.

(** X9. [increase] then [decrease], and [decrease] then [increase], bring
    an integer count of magnitude below [2^53] back to itself. *)
Theorem increase_decrease_round_trip (s : CounterState) (c : Z) :
  valid_number (count s) -> to_int (count s) = Some c -> Z.abs c < 2 ^ 53 ->
  to_int (count (decrease (increase s))) = Some c
  /\ to_int (count (increase (decrease s))) = Some c.
Proof.
  intros Vs Hs Hc. destruct s as [x]. cbn [count] in Vs, Hs.
  unfold increase, decrease, set_fn, set. cbn [merge_field p_count count].
  destruct (to_int_inv x c Vs Hs ltac:(lia)) as [-> | [-> ->]].
  - rewrite num_add_exact, num_sub_exact by (cbn; lia).
    rewrite num_sub_exact, num_add_exact by (cbn; lia).
    replace (c + 1 - 1) with c by lia. replace (c - 1 + 1) with c by lia.
    split; apply to_int_of_int; lia.
  - split; reflexivity.
Qed.

Lemma increase_decrease_round_trip_witness :
  to_int (count (decrease (increase {| count := of_int (1 - 2 ^ 53) |})))
  = Some (1 - 2 ^ 53).
Proof.
  apply (increase_decrease_round_trip {| count := of_int (1 - 2 ^ 53) |} (1 - 2 ^ 53)).
  - reflexivity.
  - reflexivity.
  - vm_compute. reflexivity.
Defined.

(** At [2^53] the round trip ends one below. *)
Lemma round_trip_fails_at_2_53 :
  to_int (count (decrease (increase {| count := of_int (2 ^ 53) |})))
  = Some (2 ^ 53 - 1).
Proof. reflexivity. Qed.

Lemma num_add_nan_l y : num_add S754_nan y = S754_nan.
Proof. reflexivity. Qed.

Lemma num_add_nan_r x : num_add x S754_nan = S754_nan.
Proof. destruct x as [s | s | | s m e]; reflexivity. Qed.

Lemma nan_act a s :
  is_reset a = false -> count s = S754_nan -> count (act s a) = S754_nan.
Proof.
  intros Ha Hs. destruct s as [x]. cbn [count] in Hs. subst x.
  destruct a as [| | by_ |]; try discriminate; reflexivity.
Qed.

Lemma nan_run acts :
  forall s,
    forallb (fun a => negb (is_reset a)) acts = true ->
    count s = S754_nan -> count (run acts s) = S754_nan.
Proof.
  induction acts as [|a acts IH]; intros s Hr Hs.
  - exact Hs.
  - cbn [forallb] in Hr. apply andb_prop in Hr as [Ha Hr].
    rewrite counter_run_cons. apply IH; [exact Hr|].
    apply nan_act; [|exact Hs]. destruct (is_reset a); [discriminate|reflexivity].
Qed.

(** X10. [increaseBy(NaN)] makes the count [NaN] from any state, and no
    sequence of [increase], [decrease] and [increaseBy] brings a number
    back: until [reset] the count is [NaN] and [canDecrease()] is false. *)
Theorem nan_until_reset (s : CounterState) (acts : list Action) :
  forallb (fun a => negb (is_reset a)) acts = true ->
  count (run (IncreaseBy S754_nan :: acts) s) = S754_nan
  /\ canDecrease (run (IncreaseBy S754_nan :: acts) s) = false
  /\ count (reset (run (IncreaseBy S754_nan :: acts) s)) = of_int 0.
Proof.
  intros Hr.
  assert (H : count (run (IncreaseBy S754_nan :: acts) s) = S754_nan).
  { rewrite counter_run_cons. apply nan_run; [exact Hr|].
    cbn [act]. unfold increaseBy, set. cbn [merge_field p_count count].
    apply num_add_nan_r. }
  split; [exact H|]. split; [|reflexivity].
  unfold canDecrease. rewrite H. reflexivity.
Qed.

Lemma nan_until_reset_witness :
  count (run (IncreaseBy S754_nan :: [Increase; IncreaseBy (of_int 5); Decrease])
             initial) = S754_nan.
Proof.
  apply (nan_until_reset initial [Increase; IncreaseBy (of_int 5); Decrease]).
  reflexivity.
Defined.

End CounterRuns.

(** ** The counter panel *)

Module CounterPanelSpec.

Import Zustand Number Counter CounterPanel NumberFacts.
Local Open Scope Z_scope.

Lemma click_decrease s : click s ClickDecrease = decrease s.
Proof. reflexivity. Qed.

Lemma clicks_decrease k :
  forall j : Z,
    0 <= j -> j + Z.of_nat k <= 2 ^ 53 ->
    clicks (repeat ClickDecrease k) {| count := of_int (- j) |}
    = {| count := of_int (- (j + Z.of_nat k)) |}.
Proof.
  induction k as [|k IH]; intros j Hj Hb.
  - cbn [repeat clicks fold_left]. do 2 f_equal. lia.
  - cbn [repeat clicks fold_left]. rewrite click_decrease.
    unfold decrease, set_fn, set. cbn [merge_field p_count count].
    rewrite num_sub_exact by (cbn; lia).
    replace (- j - 1) with (- (j + 1)) by lia.
    fold (clicks (repeat ClickDecrease k) {| count := of_int (- (j + 1)) |}).
    rewrite IH by lia. do 2 f_equal. lia.
Qed.

(** X11. The decrease button of the panel is never disabled: its
    [disabled] attribute negates the function [canDecrease] instead of its
    result.  Pressing it [k] times on the fresh panel brings the count to
    [-k] (for [k] up to [2^53]), with [canDecrease()] false all along. *)
Theorem panel_decrease_never_disabled (k : nat) :
  Z.of_nat k <= 2 ^ 53 ->
  (forall s : CounterState, disabled (decrease_button (CounterPanel s)) = false)
  /\ count (clicks (repeat ClickDecrease k) initial) = of_int (- Z.of_nat k)
  /\ canDecrease (clicks (repeat ClickDecrease k) initial) = false.
Proof.
  intros Hk. split; [intros s; reflexivity|].
  change initial with {| count := of_int (- 0) |}.
  rewrite clicks_decrease by lia. cbn [count Z.add]. split; [reflexivity|].
  unfold canDecrease. cbn [count].
  destruct (num_gt (of_int (- Z.of_nat k)) (of_int 0)) eqn:E; [|reflexivity].
  apply num_gt_zero in E; lia.
Qed.

Lemma panel_decrease_never_disabled_witness :
  count (clicks (repeat ClickDecrease 3) initial) = of_int (- Z.of_nat 3).
Proof.
  apply (panel_decrease_never_disabled 3). vm_compute. discriminate.
Defined.

End CounterPanelSpec.
